(** * Verification of [src/utils.c]: validation guards and the random source

    A shallow embedding of the helper functions of [utils.c] (the QuEST
    support file of TRIAD): the six guards that [exit(1)] on a violated
    precondition, and the pair [genrand_real1] / [init_by_array] built on
    the C library's [srand], [rand] and [time].

    - C [int] and [long long int] arguments are integers of [Z]; the guards
      only compare them, so no wrap-around arises.
    - A call that may end the process has an [outcome]: it returns, or the
      process exits with a status.
    - The C library's generator is a parameter ([libc]); the static flag of
      [genrand_real1] and the library's hidden generator make up the
      process state [rng_state]. *)

From Stdlib Require Import ZArith QArith List Bool Lia.
From Stdlib Require Import Floats Numbers.Cyclic.Int63.Uint63.
Import ListNotations.

Local Open Scope Z_scope.

(** ** Process termination *)

Module Exit.

(** What a call of a [void] function of [utils.c] does to the process. *)
Inductive outcome : Type :=
| Returns : outcome
| Exits (status : Z) : outcome.

(** [exit(status)] of <stdlib.h>. *)
Definition exit (status : Z) : outcome := Exits status.

(** Every way the file leaves the process: not at all, or with status 1. *)
Definition returns_or_exits_1 (o : outcome) : Prop :=
  o = Returns \/ o = Exits 1.

End Exit.
Export Exit.

(** ** Validation guards *)

Module Guards.

(** [void*] values; [NULL] is the null address. *)
Definition pointer : Type := Z.
Definition NULL : pointer := 0.

(** The ranges of the C argument types. *)
Definition int_range (x : Z) : Prop := - 2 ^ 31 <= x < 2 ^ 31.
Definition long_long_range (x : Z) : Prop := - 2 ^ 63 <= x < 2 ^ 63.

(** [void validateControlTarget(int controlQubit, int targetQubit, int numQubits)] *)
Definition validateControlTarget (controlQubit targetQubit numQubits : Z) : outcome :=
  if (controlQubit >=? numQubits) || (targetQubit >=? numQubits)
     || (controlQubit =? targetQubit)
  then exit 1
  else Returns.

(** [void validateTarget(int targetQubit, int numQubits)] *)
Definition validateTarget (targetQubit numQubits : Z) : outcome :=
  if targetQubit >=? numQubits then exit 1 else Returns.

(** [void validateNumQubitsInQureg(int numQubits)] *)
Definition validateNumQubitsInQureg (numQubits : Z) : outcome :=
  if (numQubits <=? 0) || (numQubits >? 50) then exit 1 else Returns.

(** [void validateMemoryAllocationSize(long long int numValues)] *)
Definition validateMemoryAllocationSize (numValues : Z) : outcome :=
  if numValues <=? 0 then exit 1 else Returns.

(** [void validateQuregAllocation(void* qureg, int numQubits)] *)
Definition validateQuregAllocation (qureg : pointer) (numQubits : Z) : outcome :=
  if qureg =? NULL then exit 1 else Returns.

(** [void raiseQASMBufferOverflow()] *)
Definition raiseQASMBufferOverflow : outcome := exit 1.

(** [void triad_print_info()]: [DEBUG_PRINT] expands to [((void)0)]. *)
Definition triad_print_info : outcome := Returns.

End Guards.
Export Guards.

(** ** The C library's generator *)

Module LibC.

(** [srand], [rand] and [RAND_MAX] of <stdlib.h> are not part of the file;
    they are taken as an interface.  [generator] is the library's hidden
    state.  The two laws are the ones ISO C gives: [RAND_MAX] is at least
    32767 and [rand] returns an [int] between 0 and [RAND_MAX]. *)
Record libc : Type := {
  generator : Type;
  srand : Z -> generator;
  rand : generator -> Z * generator;
  RAND_MAX : Z;
  RAND_MAX_min : 32767 <= RAND_MAX;
  rand_range : forall g, 0 <= fst (rand g) <= RAND_MAX
}.

(** Conversion to [unsigned int], the parameter type of [srand]. *)
Definition to_unsigned (x : Z) : Z := x mod 2 ^ 32.

(** The library calls a function makes, in order. *)
Inductive libc_call : Type :=
| Call_time (now : Z)
| Call_srand (seed : Z)
| Call_rand (value : Z).

(** The first [k] values of [rand] from generator state [g]. *)
Fixpoint rand_sequence (L : libc) (k : nat) (g : generator L) : list Z :=
  match k with
  | O => []
  | S k' => let (r, g') := rand L g in r :: rand_sequence L k' g'
  end.

(** The generator state after [k] calls of [rand]. *)
Fixpoint rand_advance (L : libc) (k : nat) (g : generator L) : generator L :=
  match k with
  | O => g
  | S k' => rand_advance L k' (snd (rand L g))
  end.

End LibC.
Export LibC.

(** ** The random source of [utils.c] *)

Module Rng.

Section WithLibC.

Variable L : libc.

(** The state the two functions share: the library's generator and the
    [static int initialized] of [genrand_real1]. *)
Record rng_state : Type := {
  gen : generator L;
  initialized : bool
}.

(** At process start the flag is 0 and the library behaves as after
    [srand(1)]. *)
Definition process_start : rng_state :=
  {| gen := srand L 1; initialized := false |}.

(** [(double)raw / (double)RAND_MAX] as the exact quotient.  Both casts are
    exact (an [int] has at most 31 value bits); the C division rounds this
    quotient to the nearest binary64 value. *)
Definition real_of_raw (raw : Z) : Q := (inject_Z raw / inject_Z (RAND_MAX L))%Q.

(** The block [if (!initialized) { srand(time(NULL)); initialized = 1; }].
    [now] is what [time(NULL)] returns if it is called. *)
Definition seed_from_clock (now : Z) (st : rng_state)
  : rng_state * list libc_call :=
  if negb (initialized st) then
    let seed := to_unsigned now in
    ({| gen := srand L seed; initialized := true |},
     [Call_time now; Call_srand seed])
  else (st, []).

(** [double genrand_real1()], with the exact quotient of the two integers
    it divides; [genrand_real1_double] below has the double it returns. *)
Definition genrand_real1 (now : Z) (st : rng_state)
  : Q * rng_state * list libc_call :=
  let (st1, evs) := seed_from_clock now st in
  let (r, g') := rand L (gen st1) in
  (real_of_raw r,
   {| gen := g'; initialized := initialized st1 |},
   evs ++ [Call_rand r]).

(** [void init_by_array(unsigned long init_key[], int key_length)].
    The array is the list of its elements; reading [init_key[0]] of an
    empty array is undefined, which is [None]. *)
Definition init_by_array (init_key : list Z) (key_length : Z) (st : rng_state)
  : option (rng_state * list libc_call) :=
  match init_key with
  | [] => None
  | k0 :: _ =>
      let seed := to_unsigned k0 in
      Some ({| gen := srand L seed; initialized := initialized st |},
            [Call_srand seed])
  end.

(** The raw value the next [genrand_real1] divides. *)
Definition next_raw (now : Z) (st : rng_state) : Z :=
  fst (rand L (gen (fst (seed_from_clock now st)))).

(** *** Runs of a process *)

(** A call of the random source by the host; a draw carries the clock
    reading of its moment. *)
Inductive call : Type :=
| Draw (now : Z)
| Reseed (init_key : list Z) (key_length : Z).

Record run_result : Type := {
  draws : list Q;
  calls : list libc_call;
  final : rng_state
}.

(** The calls of [cs] in order from state [st]; [None] when one is
    undefined. *)
Fixpoint run (cs : list call) (st : rng_state) : option run_result :=
  match cs with
  | [] => Some {| draws := []; calls := []; final := st |}
  | Draw now :: cs' =>
      let '(v, st', evs) := genrand_real1 now st in
      match run cs' st' with
      | Some r => Some {| draws := v :: draws r;
                          calls := evs ++ calls r;
                          final := final r |}
      | None => None
      end
  | Reseed init_key key_length :: cs' =>
      match init_by_array init_key key_length st with
      | Some (st', evs) =>
          match run cs' st' with
          | Some r => Some {| draws := draws r;
                              calls := evs ++ calls r;
                              final := final r |}
          | None => None
          end
      | None => None
      end
  end.

Definition is_draw (c : call) : bool :=
  match c with Draw _ => true | Reseed _ _ => false end.

Definition is_time_call (e : libc_call) : bool :=
  match e with Call_time _ => true | _ => false end.

(** How often a run seeded the generator from the clock. *)
Definition automatic_seedings (evs : list libc_call) : nat :=
  length (filter is_time_call evs).

End WithLibC.

Arguments gen {L} _.
Arguments initialized {L} _.
Arguments draws {L} _.
Arguments calls {L} _.
Arguments final {L} _.

End Rng.
Export Rng.

(** ** A concrete C library *)

Module SampleLibC.

(** The portable generator of the ISO C text (the example under [rand]),
    with a 64-bit [unsigned long] and [RAND_MAX] 32767:
    [next = next * 1103515245 + 12345;
     return (unsigned int)(next / 65536) % 32768;] *)
Definition sample_srand (seed : Z) : Z := seed.

Definition sample_rand (next : Z) : Z * Z :=
  let next' := (next * 1103515245 + 12345) mod 2 ^ 64 in
  ((next' / 65536) mod 2 ^ 32 mod 32768, next').

Lemma sample_rand_range (g : Z) : 0 <= fst (sample_rand g) <= 32767.
Proof.
  unfold sample_rand; cbn [fst].
  pose proof (Z.mod_pos_bound
                (((g * 1103515245 + 12345) mod 2 ^ 64 / 65536) mod 2 ^ 32)
                32768 eq_refl).
  lia.
Qed.

Definition sample : libc :=
  {| generator := Z;
     srand := sample_srand;
     rand := sample_rand;
     RAND_MAX := 32767;
     RAND_MAX_min := Z.le_refl 32767;
     rand_range := sample_rand_range |}.

End SampleLibC.
Export SampleLibC.

(** ** The quotient in binary64 *)

Module Binary64.

(** [(double)x] for a non-negative [int]. *)
Definition double_of_int (x : Z) : float := PrimFloat.of_uint63 (Uint63.of_Z x).

(** [(double)raw / (double)RAND_MAX] in IEEE-754 double precision. *)
Definition double_of_raw (L : libc) (raw : Z) : float :=
  PrimFloat.div (double_of_int raw) (double_of_int (RAND_MAX L)).

(** Each of the [count] raw values from [raw] on gives a double in
    [[0, 1)]. *)
Fixpoint all_below_one (L : libc) (count : nat) (raw : Z) : bool :=
  match count with
  | O => true
  | S c =>
      let d := double_of_raw L raw in
      PrimFloat.leb 0%float d && PrimFloat.ltb d 1%float
      && all_below_one L c (raw + 1)
  end.

End Binary64.
Export Binary64.

(** * Properties *)

(** ** Guards *)

Module GuardFacts.

(** Case analysis on the tests of a guard. *)
Ltac guard_cases :=
  rewrite ?Z.geb_leb, ?Z.gtb_ltb;
  repeat match goal with
         | |- context [?a <=? ?b] => destruct (Z.leb_spec a b)
         | |- context [?a <? ?b] => destruct (Z.ltb_spec a b)
         | |- context [?a =? ?b] => destruct (Z.eqb_spec a b)
         end;
  cbn.

Ltac guard_iff :=
  guard_cases; split; intros; try discriminate; try reflexivity; lia.

Lemma validateControlTarget_returns (control target total : Z) :
  validateControlTarget control target total = Returns <->
  control < total /\ target < total /\ control <> target.
Proof. unfold validateControlTarget, exit. guard_iff. Qed.

Lemma validateControlTarget_exits (control target total : Z) :
  validateControlTarget control target total = Exits 1 <->
  control >= total \/ target >= total \/ control = target.
Proof. unfold validateControlTarget, exit. guard_iff. Qed.

Lemma validateTarget_returns (target total : Z) :
  validateTarget target total = Returns <-> target < total.
Proof. unfold validateTarget, exit. guard_iff. Qed.

Lemma guard_outcome (b : bool) :
  returns_or_exits_1 (if b then exit 1 else Returns).
Proof. destruct b; [right | left]; reflexivity. Qed.

(** The calls the documentation of the guards works through. *)
Example validateNumQubitsInQureg_5 : validateNumQubitsInQureg 5 = Returns.
Proof. reflexivity. Qed.

Example validateNumQubitsInQureg_0 : validateNumQubitsInQureg 0 = Exits 1.
Proof. reflexivity. Qed.

Example validateControlTarget_2_2_5 : validateControlTarget 2 2 5 = Exits 1.
Proof. reflexivity. Qed.

Example validateControlTarget_1_3_5 : validateControlTarget 1 3 5 = Returns.
Proof. reflexivity. Qed.

Example validateMemoryAllocationSize_neg5 :
  validateMemoryAllocationSize (-5) = Exits 1.
Proof. reflexivity. Qed.

Example validateMemoryAllocationSize_1024 :
  validateMemoryAllocationSize 1024 = Returns.
Proof. reflexivity. Qed.

Example validateQuregAllocation_NULL (numQubits : Z) :
  validateQuregAllocation NULL numQubits = Exits 1.
Proof. reflexivity. Qed.

(** The two ends of [long long int]. *)
Example validateMemoryAllocationSize_extremes :
  long_long_range (- 2 ^ 63) /\ long_long_range (2 ^ 63 - 1) /\
  validateMemoryAllocationSize (- 2 ^ 63) = Exits 1 /\
  validateMemoryAllocationSize (2 ^ 63 - 1) = Returns.
Proof. unfold long_long_range. repeat split; try reflexivity; lia. Qed.

End GuardFacts.

Module GuardClaims.
Import GuardFacts.

(** C4, as stated, fails: with control [-1], target [0] and a register of
    one qubit the guard returns, although [-1] is not in [[0, 1)].  All
    three arguments are C [int] values. *)
Lemma validateControlTarget_returns_outside_range :
  (int_range (-1) /\ int_range 0 /\ int_range 1) /\
  ~ (validateControlTarget (-1) 0 1 = Returns <->
     -1 <> 0 /\ 0 <= -1 < 1 /\ 0 <= 0 < 1).
Proof.
  split.
  - unfold int_range; lia.
  - intros [H _]. specialize (H eq_refl). lia.
Qed.

(** C4, amended: [validateControlTarget] returns exactly when control and
    target differ and both are below the register size (no lower bound is
    tested); it exits with status 1 exactly when they are equal or one of
    them is at least the register size. *)
Theorem validateControlTarget_returns_iff (control target total : Z) :
  (validateControlTarget control target total = Returns <->
   control <> target /\ control < total /\ target < total) /\
  (validateControlTarget control target total = Exits 1 <->
   control = target \/ control >= total \/ target >= total).
Proof.
  pose proof (validateControlTarget_returns control target total).
  pose proof (validateControlTarget_exits control target total).
  tauto.
Qed.

(** C5: [validateNumQubitsInQureg] returns exactly for counts from 1 to 50
    and exits the process (with status 1) for every other integer. *)
Theorem validateNumQubitsInQureg_returns_iff (count : Z) :
  (validateNumQubitsInQureg count = Returns <-> 1 <= count <= 50) /\
  (validateNumQubitsInQureg count = Exits 1 <-> count <= 0 \/ count > 50).
Proof.
  unfold validateNumQubitsInQureg, exit. split; guard_iff.
Qed.

(** C7: [validateMemoryAllocationSize] returns for every positive size and
    exits the process (with status 1) for every size that is zero or
    negative; this holds for every integer, so for every 64-bit one. *)
Theorem validateMemoryAllocationSize_returns_iff (n : Z) :
  (validateMemoryAllocationSize n = Returns <-> 0 < n) /\
  (validateMemoryAllocationSize n = Exits 1 <-> n <= 0).
Proof.
  unfold validateMemoryAllocationSize, exit. split; guard_iff.
Qed.

(** C8: [raiseQASMBufferOverflow] exits on every call, and whenever a
    guard does not return the exit status is 1. *)
Theorem failing_guards_exit_with_status_1 :
  raiseQASMBufferOverflow = Exits 1 /\
  (forall control target total,
      returns_or_exits_1 (validateControlTarget control target total)) /\
  (forall target total, returns_or_exits_1 (validateTarget target total)) /\
  (forall count, returns_or_exits_1 (validateNumQubitsInQureg count)) /\
  (forall n, returns_or_exits_1 (validateMemoryAllocationSize n)) /\
  (forall qureg count, returns_or_exits_1 (validateQuregAllocation qureg count)).
Proof.
  repeat split; intros; apply guard_outcome.
Qed.

(** C9: the outcome of [validateQuregAllocation] does not depend on its
    second parameter [numQubits]: for a fixed pointer any two calls agree,
    and the call returns exactly when the pointer is not [NULL]. *)
Theorem validateQuregAllocation_ignores_numQubits
        (qureg : pointer) (numQubits1 numQubits2 : Z) :
  validateQuregAllocation qureg numQubits1
  = validateQuregAllocation qureg numQubits2 /\
  (validateQuregAllocation qureg numQubits1 = Returns <-> qureg <> NULL).
Proof.
  unfold validateQuregAllocation, exit. split; [reflexivity |].
  destruct (Z.eqb_spec qureg NULL); split; intros;
    try discriminate; try reflexivity; congruence.
Qed.

(** C10: negative indices pass the guards.  A negative target below
    [numQubits] passes [validateTarget], and two distinct negative indices
    below [numQubits] pass [validateControlTarget]; [numQubits] may be 0. *)
Theorem negative_indices_pass :
  (forall target numQubits,
      target < 0 -> target < numQubits ->
      validateTarget target numQubits = Returns) /\
  (forall control target numQubits,
      control < 0 -> target < 0 -> control <> target ->
      control < numQubits -> target < numQubits ->
      validateControlTarget control target numQubits = Returns).
Proof.
  split; intros.
  - apply validateTarget_returns; assumption.
  - apply validateControlTarget_returns; auto.
Qed.

(** On an empty register: target [-1], and the pair [(-1, -2)]. *)
Lemma negative_indices_pass_witness :
  validateTarget (-1) 0 = Returns /\
  validateControlTarget (-1) (-2) 0 = Returns.
Proof.
  split.
  - apply (proj1 negative_indices_pass (-1) 0); lia.
  - apply (proj2 negative_indices_pass (-1) (-2) 0); lia.
Defined.

End GuardClaims.

(** ** The random source *)

Module RngFacts.

Section WithLibC.

Variable L : libc.

Lemma RAND_MAX_pos : 0 < RAND_MAX L.
Proof. pose proof (RAND_MAX_min L); lia. Qed.

(** The quotient against the raw value. *)
Lemma real_of_raw_le_1 (raw : Z) :
  (real_of_raw L raw <= 1)%Q <-> raw <= RAND_MAX L.
Proof.
  pose proof RAND_MAX_pos as Hpos.
  unfold real_of_raw, Qle, Qdiv, Qmult, Qinv, inject_Z; cbn.
  destruct (RAND_MAX L) as [| m | m] eqn:Hm; try lia.
  cbn. lia.
Qed.

Lemma real_of_raw_lt_1 (raw : Z) :
  (real_of_raw L raw < 1)%Q <-> raw < RAND_MAX L.
Proof.
  pose proof RAND_MAX_pos as Hpos.
  unfold real_of_raw, Qlt, Qdiv, Qmult, Qinv, inject_Z; cbn.
  destruct (RAND_MAX L) as [| m | m] eqn:Hm; try lia.
  cbn. lia.
Qed.

Lemma real_of_raw_nonneg (raw : Z) :
  (0 <= real_of_raw L raw)%Q <-> 0 <= raw.
Proof.
  pose proof RAND_MAX_pos as Hpos.
  unfold real_of_raw, Qle, Qdiv, Qmult, Qinv, inject_Z; cbn.
  destruct (RAND_MAX L) as [| m | m] eqn:Hm; try lia.
  cbn. lia.
Qed.

Lemma genrand_real1_value (now : Z) (st : rng_state L) :
  fst (fst (genrand_real1 L now st)) = real_of_raw L (next_raw L now st).
Proof.
  unfold genrand_real1, next_raw.
  destruct (seed_from_clock L now st) as [st1 evs]; cbn [fst].
  destruct (rand L (gen st1)) as [r g']; reflexivity.
Qed.

Lemma next_raw_range (now : Z) (st : rng_state L) :
  0 <= next_raw L now st <= RAND_MAX L.
Proof. unfold next_raw; apply rand_range. Qed.

(** Once the flag is set, draws read the generator and never the clock. *)
Lemma run_draws_initialized (nows : list Z) (g : generator L) :
  run L (map Draw nows) {| gen := g; initialized := true |} =
  Some {| draws := map (real_of_raw L) (rand_sequence L (length nows) g);
          calls := map Call_rand (rand_sequence L (length nows) g);
          final := {| gen := rand_advance L (length nows) g;
                      initialized := true |} |}.
Proof.
  revert g; induction nows as [| now nows IH]; intros g.
  - reflexivity.
  - cbn [map run length rand_sequence rand_advance].
    unfold genrand_real1, seed_from_clock; cbn [initialized negb gen].
    destruct (rand L g) as [r g'] eqn:Hr; cbn [snd initialized].
    rewrite IH; reflexivity.
Qed.

(** The first draw of a process seeds from the clock, whatever the
    generator held. *)
Lemma run_draws_uninitialized (now : Z) (nows : list Z) (g : generator L) :
  run L (map Draw (now :: nows)) {| gen := g; initialized := false |} =
  run L (map Draw (now :: nows))
      {| gen := srand L (to_unsigned now); initialized := false |}.
Proof.
  cbn [map run].
  unfold genrand_real1, seed_from_clock; cbn [initialized negb gen].
  reflexivity.
Qed.

Lemma run_first_draw (now : Z) (nows : list Z) (g : generator L) :
  option_map draws
    (run L (map Draw (now :: nows)) {| gen := g; initialized := false |}) =
  Some (map (real_of_raw L)
            (rand_sequence L (S (length nows)) (srand L (to_unsigned now)))).
Proof.
  cbn [map run rand_sequence].
  unfold genrand_real1, seed_from_clock; cbn [initialized negb gen].
  destruct (rand L (srand L (to_unsigned now))) as [r g'] eqn:Hr.
  cbn [initialized]. rewrite run_draws_initialized. reflexivity.
Qed.

(** The flag is set by draws only. *)
Lemma run_final_initialized (cs : list call) (st : rng_state L) (r : run_result L) :
  run L cs st = Some r ->
  initialized (final r) = initialized st || existsb is_draw cs.
Proof.
  revert st r; induction cs as [| c cs IH]; intros [g b] r Hrun.
  - cbn in Hrun. injection Hrun as <-. cbn. now rewrite orb_false_r.
  - destruct c as [now | init_key key_length]; cbn [run] in Hrun.
    + destruct (genrand_real1 L now _) as [[v st'] evs] eqn:Hg.
      destruct (run L cs st') as [r' |] eqn:Hr'; [| discriminate].
      injection Hrun as <-. cbn [final existsb is_draw].
      rewrite (IH _ _ Hr').
      unfold genrand_real1, seed_from_clock in Hg.
      destruct b; cbn in Hg;
        match type of Hg with
        | context [rand L ?g0] => destruct (rand L g0)
        end; injection Hg as _ <- _; cbn; reflexivity.
    + destruct (init_by_array L init_key key_length _) as [[st' evs] |] eqn:Hi;
        [| discriminate].
      destruct (run L cs st') as [r' |] eqn:Hr'; [| discriminate].
      injection Hrun as <-. cbn [final existsb is_draw orb].
      rewrite (IH _ _ Hr').
      unfold init_by_array in Hi. destruct init_key; [discriminate |].
      injection Hi as <- _. reflexivity.
Qed.

(** The clock is read at most once in a process: by the first draw, when
    the flag is still clear. *)
Lemma run_automatic_seedings (cs : list call) (st : rng_state L) (r : run_result L) :
  run L cs st = Some r ->
  automatic_seedings (calls r) =
  if initialized st then 0%nat
  else if existsb is_draw cs then 1%nat else 0%nat.
Proof.
  revert st r; induction cs as [| c cs IH]; intros [g b] r Hrun.
  - cbn in Hrun. injection Hrun as <-. cbn. now destruct b.
  - destruct c as [now | init_key key_length]; cbn [run] in Hrun.
    + destruct (genrand_real1 L now _) as [[v st'] evs] eqn:Hg.
      destruct (run L cs st') as [r' |] eqn:Hr'; [| discriminate].
      injection Hrun as <-. cbn [calls existsb is_draw orb].
      unfold automatic_seedings in *.
      rewrite filter_app, length_app, (IH _ _ Hr').
      unfold genrand_real1, seed_from_clock in Hg.
      destruct b; cbn in Hg;
        match type of Hg with
        | context [rand L ?g0] => destruct (rand L g0)
        end; injection Hg as _ <- <-; cbn; reflexivity.
    + destruct (init_by_array L init_key key_length _) as [[st' evs] |] eqn:Hi;
        [| discriminate].
      destruct (run L cs st') as [r' |] eqn:Hr'; [| discriminate].
      injection Hrun as <-. cbn [calls existsb is_draw orb].
      unfold automatic_seedings in *.
      rewrite filter_app, length_app, (IH _ _ Hr').
      unfold init_by_array in Hi. destruct init_key; [discriminate |].
      injection Hi as <- <-. cbn. reflexivity.
Qed.

(** After some draw has been made, a reseed fixes all later draws: they are
    the sequence of the key's seed, at any clock and for any count. *)
Lemma reseed_after_draw (k0 : Z) (rest nows : list Z) (key_length : Z)
      (st : rng_state L) :
  initialized st = true ->
  option_map draws
    (run L (Reseed (k0 :: rest) key_length :: map Draw nows) st) =
  Some (map (real_of_raw L)
            (rand_sequence L (length nows) (srand L (to_unsigned k0)))).
Proof.
  intros Hinit. cbn [run init_by_array]. rewrite Hinit.
  rewrite run_draws_initialized. reflexivity.
Qed.

End WithLibC.

End RngFacts.

Module Binary64Facts.

(** With [RAND_MAX] 32767 the rounded quotient agrees with the exact one on
    the bounds: each of the raw values 0 to 32766 gives a double in
    [[0, 1)], and 32767 gives the double 1. *)
Lemma sample_doubles :
  all_below_one sample (Z.to_nat 32767) 0 = true /\
  double_of_raw sample 32767 = 1%float.
Proof. split; vm_compute; reflexivity. Qed.

(** The same top value for the 31-bit [RAND_MAX] of common libraries. *)
Lemma int_max_over_int_max :
  PrimFloat.div (double_of_int 2147483647) (double_of_int 2147483647) = 1%float /\
  PrimFloat.ltb (PrimFloat.div (double_of_int 2147483646) (double_of_int 2147483647))
                1%float = true.
Proof. split; vm_compute; reflexivity. Qed.

End Binary64Facts.

Module RngClaims.
Import RngFacts.

(** C1 (defect in the code): a reseed made before the first draw does not
    fix the draws.  On the sample library, two processes that both start
    with [init_by_array] on the key [42] and then draw twice obtain
    different values when their clocks differ; the values are those of a
    process that never reseeded. *)
Theorem reseed_before_first_draw_not_reproducible :
  option_map draws
    (run sample [Reseed [42] 1; Draw 1700000000; Draw 1700000005]
         (process_start sample))
  = Some [7723 # 32767; 25667 # 32767]%Q /\
  option_map draws
    (run sample [Reseed [42] 1; Draw 1700000001; Draw 1700000006]
         (process_start sample))
  = Some [24562 # 32767; 9958 # 32767]%Q /\
  option_map draws
    (run sample [Draw 1700000000; Draw 1700000005] (process_start sample))
  = Some [7723 # 32767; 25667 # 32767]%Q /\
  ~ (7723 # 32767 == 24562 # 32767)%Q.
Proof.
  repeat split; try (vm_compute; reflexivity).
  unfold Qeq; cbn; lia.
Qed.

(** C2 (defect in the code): when [init_by_array] is called before the
    first draw, the first draw still seeds from the clock (the one
    automatic seeding of the process), so every draw follows the clock's
    sequence and none the key's. *)
Theorem reseed_before_first_draw_is_overridden
        (L : libc) (k0 : Z) (rest : list Z) (key_length now : Z) (nows : list Z) :
  option_map draws
    (run L (Reseed (k0 :: rest) key_length :: map Draw (now :: nows))
         (process_start L))
  = Some (map (real_of_raw L)
              (rand_sequence L (S (length nows)) (srand L (to_unsigned now)))) /\
  option_map (fun r => automatic_seedings (calls r))
    (run L (Reseed (k0 :: rest) key_length :: map Draw (now :: nows))
         (process_start L))
  = Some 1%nat.
Proof.
  split.
  - cbn [run init_by_array process_start initialized].
    pose proof (run_first_draw L now nows (srand L (to_unsigned k0))) as H.
    destruct (run L (map Draw (now :: nows)) _) as [r |]; [| discriminate].
    exact H.
  - destruct (run L _ (process_start L)) as [r |] eqn:Hrun.
    + cbn [option_map]. rewrite (run_automatic_seedings L _ _ _ Hrun).
      reflexivity.
    + exfalso. cbn [run init_by_array process_start initialized] in Hrun.
      pose proof (run_first_draw L now nows (srand L (to_unsigned k0))) as H.
      destruct (run L (map Draw (now :: nows)) _); discriminate.
Qed.

(** C6: [init_by_array] does not read [key_length]: two calls on the same
    array with different counts have the same effect, and the generator it
    leaves is the one seeded with the first key, whatever the rest of the
    array, the count and the earlier state. *)
Theorem init_by_array_ignores_key_length (L : libc) :
  (forall init_key count1 count2 st,
      init_by_array L init_key count1 st = init_by_array L init_key count2 st) /\
  (forall k0 rest1 rest2 count1 count2 st1 st2,
      option_map (fun p => gen (fst p)) (init_by_array L (k0 :: rest1) count1 st1)
      = option_map (fun p => gen (fst p)) (init_by_array L (k0 :: rest2) count2 st2)) /\
  (forall k0 rest count st,
      option_map (fun p => gen (fst p)) (init_by_array L (k0 :: rest) count st)
      = Some (srand L (to_unsigned k0))).
Proof.
  repeat split.
Qed.

End RngClaims.

(** ** How the guards relate *)

Module GuardRelations.
Import GuardFacts.

(** X1: [validateControlTarget] accepts a pair exactly when
    [validateTarget] accepts each of the two indices on the same register
    and the indices differ. *)
Theorem validateControlTarget_as_validateTarget (control target numQubits : Z) :
  validateControlTarget control target numQubits = Returns <->
  validateTarget control numQubits = Returns /\
  validateTarget target numQubits = Returns /\
  control <> target.
Proof.
  rewrite validateControlTarget_returns, !validateTarget_returns. tauto.
Qed.

(** X2: [validateControlTarget] treats its two indices alike: exchanging
    control and target never changes the outcome. *)
Theorem validateControlTarget_symmetric (control target numQubits : Z) :
  validateControlTarget control target numQubits
  = validateControlTarget target control numQubits.
Proof.
  unfold validateControlTarget.
  rewrite (Z.eqb_sym control target).
  destruct (control >=? numQubits), (target >=? numQubits); reflexivity.
Qed.

(** X3: indices accepted on a register stay accepted on every larger
    register, by [validateTarget] and by [validateControlTarget]. *)
Theorem accepted_on_larger_register (control target numQubits larger : Z) :
  numQubits <= larger ->
  (validateTarget target numQubits = Returns ->
   validateTarget target larger = Returns) /\
  (validateControlTarget control target numQubits = Returns ->
   validateControlTarget control target larger = Returns).
Proof.
  intros Hle. rewrite !validateControlTarget_returns, !validateTarget_returns.
  lia.
Qed.

(** Indices 0 and 2 of a register of 3 qubits, then of 50. *)
Lemma accepted_on_larger_register_witness :
  (validateTarget 2 3 = Returns -> validateTarget 2 50 = Returns) /\
  (validateControlTarget 0 2 3 = Returns ->
   validateControlTarget 0 2 50 = Returns).
Proof.
  apply (accepted_on_larger_register 0 2 3 50). lia.
Defined.

(** X4: with non-negative indices, [validateControlTarget] returns only on
    a register of at least two qubits, and then the larger index is at
    least 1. *)
Theorem controlled_pair_needs_two_qubits (control target numQubits : Z) :
  0 <= control -> 0 <= target ->
  validateControlTarget control target numQubits = Returns ->
  2 <= numQubits /\ 1 <= Z.max control target.
Proof.
  intros Hc Ht H. apply validateControlTarget_returns in H. lia.
Qed.

Lemma controlled_pair_needs_two_qubits_witness :
  2 <= 2 /\ 1 <= Z.max 0 1.
Proof.
  apply (controlled_pair_needs_two_qubits 0 1 2); [lia | lia | reflexivity].
Defined.

End GuardRelations.

(** ** Runs of the random source *)

Module RngRuns.

Definition is_reseed (c : call) : bool :=
  match c with Reseed _ _ => true | Draw _ => false end.

Definition is_rand_call (e : libc_call) : bool :=
  match e with Call_rand _ => true | _ => false end.

Definition is_srand_call (e : libc_call) : bool :=
  match e with Call_srand _ => true | _ => false end.

(** The draws of a run, [[]] when the run is undefined. *)
Definition draws_of (L : libc) (o : option (run_result L)) : list Q :=
  match o with
  | Some r => draws r
  | None => []
  end.

Section WithLibC.

Variable L : libc.

Lemma genrand_real1_initialized (now : Z) (st : rng_state L) :
  initialized (snd (fst (genrand_real1 L now st))) = true.
Proof.
  unfold genrand_real1, seed_from_clock.
  destruct st as [g b]; destruct b; cbn;
    match goal with
    | |- context [rand L ?g0] => destruct (rand L g0)
    end; reflexivity.
Qed.

Lemma genrand_real1_calls (now : Z) (st : rng_state L) :
  snd (genrand_real1 L now st) =
  snd (seed_from_clock L now st) ++ [Call_rand (next_raw L now st)].
Proof.
  unfold genrand_real1, next_raw.
  destruct (seed_from_clock L now st) as [st1 evs]; cbn [fst snd].
  destruct (rand L (gen st1)) as [r g']; reflexivity.
Qed.

(** A run of two parts is the run of the first, then of the second from
    the state the first leaves. *)
Lemma run_app (cs1 cs2 : list call) (st : rng_state L) :
  run L (cs1 ++ cs2) st =
  match run L cs1 st with
  | Some r1 =>
      match run L cs2 (final r1) with
      | Some r2 => Some {| draws := draws r1 ++ draws r2;
                           calls := calls r1 ++ calls r2;
                           final := final r2 |}
      | None => None
      end
  | None => None
  end.
Proof.
  revert st; induction cs1 as [| c cs1 IH]; intros st.
  - cbn. destruct (run L cs2 st) as [[d c f] |]; reflexivity.
  - destruct c as [now | init_key key_length]; cbn [app run].
    + destruct (genrand_real1 L now st) as [[v st'] evs].
      rewrite IH. destruct (run L cs1 st') as [r1 |]; [| reflexivity].
      cbn [final draws calls].
      destruct (run L cs2 (final r1)) as [r2 |]; [| reflexivity].
      cbn [final draws calls]. now rewrite app_assoc.
    + destruct (init_by_array L init_key key_length st) as [[st' evs] |];
        [| reflexivity].
      rewrite IH. destruct (run L cs1 st') as [r1 |]; [| reflexivity].
      cbn [final draws calls].
      destruct (run L cs2 (final r1)) as [r2 |]; [| reflexivity].
      cbn [final draws calls]. now rewrite app_assoc.
Qed.

End WithLibC.

End RngRuns.

Module RngProperties.
Import RngFacts RngRuns.

(** One step of an induction over [run]: split the hypothesis that the run
    is defined into the first call and the rest. *)
Ltac run_cases L Hrun :=
  cbn [run] in Hrun;
  match type of Hrun with
  | context [genrand_real1 L ?now ?st] =>
      let v := fresh "v" in
      let st' := fresh "st'" in
      let evs := fresh "evs" in
      let Hg := fresh "Hg" in
      destruct (genrand_real1 L now st) as [[v st'] evs] eqn:Hg
  | context [init_by_array L ?ks ?n ?st] =>
      let st' := fresh "st'" in
      let evs := fresh "evs" in
      let Hi := fresh "Hi" in
      destruct (init_by_array L ks n st) as [[st' evs] |] eqn:Hi;
      [| discriminate]
  end;
  match type of Hrun with
  | context [run L ?cs ?st'] =>
      let r' := fresh "r'" in
      let Hr' := fresh "Hr'" in
      destruct (run L cs st') as [r' |] eqn:Hr'; [| discriminate]
  end;
  injection Hrun as <-.

(** X6: in a run from any state the clock is read at most once: once when
    the flag is clear at the start and the run contains a draw, never
    otherwise.  The flag is set at the end exactly when it was set at the
    start or the run contains a draw; a reseed never sets it. *)
Theorem clock_read_at_most_once
        (L : libc) (cs : list call) (st : rng_state L) (r : run_result L) :
  run L cs st = Some r ->
  automatic_seedings (calls r)
  = (if negb (initialized st) && existsb is_draw cs then 1 else 0)%nat /\
  initialized (final r) = initialized st || existsb is_draw cs.
Proof.
  intros Hrun. split.
  - rewrite (run_automatic_seedings L cs st r Hrun).
    destruct (initialized st), (existsb is_draw cs); reflexivity.
  - exact (run_final_initialized L cs st r Hrun).
Qed.

(** A process on the sample library that reseeds and then draws twice. *)
Lemma clock_read_at_most_once_witness :
  exists r,
    run sample [Reseed [42] 1; Draw 1700000000; Draw 1700000005]
        (process_start sample) = Some r /\
    automatic_seedings (calls r) = 1%nat /\
    initialized (final r) = true.
Proof.
  eexists. split; [reflexivity |].
  exact (clock_read_at_most_once
           sample [Reseed [42] 1; Draw 1700000000; Draw 1700000005]
           (process_start sample) _ eq_refl).
Defined.

(** X7: a run yields one value per draw and calls [rand] once per draw; a
    reseed consumes no random number.  [srand] is called once per reseed
    and once more for the automatic seeding, if there is one. *)
Theorem one_rand_call_per_draw
        (L : libc) (cs : list call) (st : rng_state L) (r : run_result L) :
  run L cs st = Some r ->
  length (draws r) = length (filter is_draw cs) /\
  length (filter is_rand_call (calls r)) = length (filter is_draw cs) /\
  length (filter is_srand_call (calls r))
  = (length (filter is_reseed cs) + automatic_seedings (calls r))%nat.
Proof.
  revert st r; induction cs as [| c cs IH]; intros [g b] r Hrun.
  - cbn in Hrun. injection Hrun as <-. repeat split.
  - destruct c as [now | init_key key_length]; run_cases L Hrun.
    + destruct (IH _ _ Hr') as (Hd & Hr & Hs).
      pose proof (genrand_real1_calls L now {| gen := g; initialized := b |}) as Hc.
      rewrite Hg in Hc; cbn [snd] in Hc; subst evs.
      unfold automatic_seedings in *.
      cbn [draws calls filter is_draw is_reseed length].
      rewrite !filter_app, !length_app, Hd, Hr, Hs.
      unfold seed_from_clock; destruct b; cbn; repeat split; lia.
    + destruct (IH _ _ Hr') as (Hd & Hr & Hs).
      unfold init_by_array in Hi. destruct init_key; [discriminate |].
      injection Hi as <- <-.
      unfold automatic_seedings in *.
      cbn [draws calls filter is_draw is_reseed length].
      rewrite !filter_app, !length_app, Hd, Hr, Hs.
      cbn; repeat split; lia.
Qed.

Lemma one_rand_call_per_draw_witness :
  exists r,
    run sample [Draw 1700000000; Reseed [42] 1; Draw 1700000005]
        (process_start sample) = Some r /\
    length (draws r) = 2%nat /\
    length (filter is_rand_call (calls r)) = 2%nat /\
    length (filter is_srand_call (calls r)) = 2%nat.
Proof.
  eexists. split; [reflexivity |].
  exact (one_rand_call_per_draw
           sample [Draw 1700000000; Reseed [42] 1; Draw 1700000005]
           (process_start sample) _ eq_refl).
Defined.

End RngProperties.

Module RngReseeding.
Import RngFacts RngRuns.

(** X9: once the flag is set (it was set at the start, or the run so far
    contains a draw), a reseed fixes every draw up to the next reseed: they
    are the quotients of the [rand] sequence of the first key, at any clock
    readings, for any count and any further keys. *)
Theorem reseed_after_a_draw_fixes_later_draws
        (L : libc) (pre : list call) (k0 : Z) (rest : list Z) (key_length : Z)
        (nows : list Z) (st : rng_state L) (r1 : run_result L) :
  run L pre st = Some r1 ->
  initialized st || existsb is_draw pre = true ->
  option_map draws
    (run L (pre ++ Reseed (k0 :: rest) key_length :: map Draw nows) st)
  = Some (draws r1 ++
          map (real_of_raw L)
              (rand_sequence L (length nows) (srand L (to_unsigned k0)))).
Proof.
  intros Hpre Hflag.
  rewrite run_app, Hpre.
  pose proof (reseed_after_draw L k0 rest nows key_length (final r1)) as H.
  rewrite (run_final_initialized L pre st r1 Hpre) in H.
  specialize (H Hflag).
  destruct (run L (Reseed (k0 :: rest) key_length :: map Draw nows) (final r1))
    as [r2 |]; [| discriminate].
  cbn [option_map draws] in *. now injection H as ->.
Qed.

(** One draw, then a reseed with key 42 and two draws, on the sample
    library: the last two values are those of seed 42. *)
Lemma reseed_after_a_draw_fixes_later_draws_witness :
  option_map draws
    (run sample ([Draw 1700000000]
                 ++ Reseed [42; 7] 1 :: map Draw [1700000001; 1700000006])
         (process_start sample))
  = Some ([7723 # 32767] ++ [19081 # 32767; 17033 # 32767])%Q.
Proof.
  exact (reseed_after_a_draw_fixes_later_draws
           sample [Draw 1700000000] 42 [7] 1 [1700000001; 1700000006]
           (process_start sample) _ eq_refl eq_refl).
Defined.

(** X10: of two reseeds in a row only the second counts: the draws and the
    final state of the run are those of the run without the first. *)
Theorem last_reseed_wins
        (L : libc) (k1 : Z) (rest1 : list Z) (key_length1 : Z)
        (k2 : Z) (rest2 : list Z) (key_length2 : Z)
        (cs : list call) (st : rng_state L) :
  option_map (fun r => (draws r, final r))
    (run L (Reseed (k1 :: rest1) key_length1
            :: Reseed (k2 :: rest2) key_length2 :: cs) st)
  = option_map (fun r => (draws r, final r))
      (run L (Reseed (k2 :: rest2) key_length2 :: cs) st).
Proof.
  cbn [run init_by_array initialized].
  destruct (run L cs _) as [r |]; reflexivity.
Qed.

(** X11: with the flag set, reseeding again with the same first key
    restarts the same sequence: the draws after the second reseed repeat
    the draws after the first, as far as both go. *)
Theorem same_key_replays
        (L : libc) (k0 : Z) (rest1 rest2 : list Z) (key_length1 key_length2 : Z)
        (nows1 nows2 : list Z) (st : rng_state L) :
  initialized st = true ->
  length nows1 = length nows2 ->
  exists vs,
    length vs = length nows1 /\
    option_map draws
      (run L (Reseed (k0 :: rest1) key_length1 :: map Draw nows1
              ++ Reseed (k0 :: rest2) key_length2 :: map Draw nows2) st)
    = Some (vs ++ vs).
Proof.
  intros Hinit Hlen.
  exists (map (real_of_raw L)
              (rand_sequence L (length nows1) (srand L (to_unsigned k0)))).
  split.
  - rewrite length_map. clear.
    generalize (srand L (to_unsigned k0)).
    induction (length nows1) as [| k IH]; intros g; [reflexivity |].
    cbn [rand_sequence]. destruct (rand L g) as [r g']. cbn. now rewrite IH.
  - change (Reseed (k0 :: rest1) key_length1 :: map Draw nows1
            ++ Reseed (k0 :: rest2) key_length2 :: map Draw nows2)
      with ((Reseed (k0 :: rest1) key_length1 :: map Draw nows1)
            ++ Reseed (k0 :: rest2) key_length2 :: map Draw nows2).
    rewrite run_app.
    assert (run L (Reseed (k0 :: rest1) key_length1 :: map Draw nows1) st
            = Some {| draws := map (real_of_raw L)
                                   (rand_sequence L (length nows1)
                                                  (srand L (to_unsigned k0)));
                      calls := [Call_srand (to_unsigned k0)]
                               ++ map Call_rand
                                      (rand_sequence L (length nows1)
                                                     (srand L (to_unsigned k0)));
                      final := {| gen := rand_advance L (length nows1)
                                                      (srand L (to_unsigned k0));
                                  initialized := true |} |}) as ->.
    { cbn [run init_by_array]. rewrite Hinit, run_draws_initialized.
      reflexivity. }
    cbn [final run init_by_array initialized].
    rewrite run_draws_initialized. cbn [option_map draws].
    now rewrite Hlen.
Qed.

Lemma same_key_replays_witness :
  exists vs,
    length vs = 2%nat /\
    option_map draws
      (run sample (Reseed [42] 1 :: map Draw [1; 2]
                   ++ Reseed [42; 9] 2 :: map Draw [3; 4])
           (Build_rng_state sample (snd (sample_rand 1700000000)) true))
    = Some (vs ++ vs).
Proof.
  exact (same_key_replays sample 42 [] [9] 1 2 [1; 2] [3; 4]
                          (Build_rng_state sample (snd (sample_rand 1700000000)) true)
                          eq_refl eq_refl).
Defined.

(** X12: without a reseed, the draws of a process are fixed by the clock
    reading of its first draw, taken as an [unsigned int]: two processes
    whose first readings agree modulo 2^32 draw the same values, whatever
    the clock shows later. *)
Theorem same_first_clock_same_draws
        (L : libc) (now1 now2 : Z) (nows1 nows2 : list Z) :
  to_unsigned now1 = to_unsigned now2 ->
  length nows1 = length nows2 ->
  option_map draws (run L (map Draw (now1 :: nows1)) (process_start L))
  = option_map draws (run L (map Draw (now2 :: nows2)) (process_start L)).
Proof.
  intros Hclock Hlen. unfold process_start.
  rewrite !run_first_draw, Hclock, Hlen. reflexivity.
Qed.

Lemma same_first_clock_same_draws_witness :
  option_map draws
    (run sample (map Draw [1700000000; 1700000005]) (process_start sample))
  = option_map draws
      (run sample (map Draw [1700000000 + 2 ^ 32; 1800000000])
           (process_start sample)).
Proof.
  exact (same_first_clock_same_draws
           sample 1700000000 (1700000000 + 2 ^ 32) [1700000005] [1800000000]
           eq_refl eq_refl).
Defined.

(** X13: [init_by_array] passes the [unsigned long] key to [srand] as an
    [unsigned int], so only the low 32 bits of [init_key[0]] count: keys
    that differ by a multiple of 2^32 leave the same state and make the
    same [srand] call. *)
Theorem init_by_array_uses_low_32_bits
        (L : libc) (k0 j : Z) (rest1 rest2 : list Z) (key_length1 key_length2 : Z)
        (st : rng_state L) :
  init_by_array L (k0 + j * 2 ^ 32 :: rest1) key_length1 st
  = init_by_array L (k0 :: rest2) key_length2 st.
Proof.
  unfold init_by_array, to_unsigned.
  now rewrite Z.mod_add by lia.
Qed.

End RngReseeding.

(** ** The quotient in binary64, for every raw value *)

Module Binary64Division.

(** The division is followed through the standard library's model of
    IEEE-754 arithmetic ([SpecFloat], at precision 53 and maximal exponent
    1024), to which the primitive operations are tied by the library's
    specification of them. *)

(** The exponent function of binary64. *)
Lemma fexp64 (x : Z) : fexp prec emax x = Z.max (x - 53) (-1074).
Proof. reflexivity. Qed.

(** [digits2_pos] is the bit length. *)
Lemma digits2_pos_bounds (p : positive) :
  2 ^ (Zpos (digits2_pos p) - 1) <= Zpos p < 2 ^ Zpos (digits2_pos p).
Proof.
  induction p as [p IH | p IH |]; cbn [digits2_pos].
  - rewrite Pos2Z.inj_succ.
    replace (Z.succ (Zpos (digits2_pos p)) - 1) with (Z.succ (Zpos (digits2_pos p) - 1)) by lia.
    rewrite !Z.pow_succ_r by lia. lia.
  - rewrite Pos2Z.inj_succ.
    replace (Z.succ (Zpos (digits2_pos p)) - 1) with (Z.succ (Zpos (digits2_pos p) - 1)) by lia.
    rewrite !Z.pow_succ_r by lia. lia.
  - cbn. lia.
Qed.

Lemma digits2_pos_unique (p : positive) (k : Z) :
  2 ^ (k - 1) <= Zpos p < 2 ^ k -> Zpos (digits2_pos p) = k.
Proof.
  intros [Hlo Hhi]. pose proof (digits2_pos_bounds p) as [Hlo' Hhi'].
  assert (0 < k).
  { destruct (Z.ltb_spec 0 k); [assumption |].
    exfalso. destruct (Z.eqb_spec k 0) as [-> |]; [cbn in Hhi; lia |].
    rewrite Z.pow_neg_r in Hhi by lia. lia. }
  destruct (Z.lt_trichotomy (Zpos (digits2_pos p)) k) as [Hlt | [Heq | Hgt]];
    [| assumption |]; exfalso.
  - assert (2 ^ Zpos (digits2_pos p) <= 2 ^ (k - 1)) by (apply Z.pow_le_mono_r; lia).
    lia.
  - assert (2 ^ k <= 2 ^ (Zpos (digits2_pos p) - 1)) by (apply Z.pow_le_mono_r; lia).
    lia.
Qed.

(** A 53-bit mantissa with an exponent in range is kept as it is. *)
Lemma round_aux_canonical (s : bool) (m : positive) (e : Z) :
  Zpos (digits2_pos m) = 53 -> -1074 <= e <= 971 ->
  binary_round_aux prec emax s (Zpos m) e loc_Exact = S754_finite s m e.
Proof.
  intros Hd He.
  unfold binary_round_aux, shr_fexp. cbn [Zdigits2 shr_record_of_loc].
  rewrite Hd, fexp64.
  replace (Z.max (53 + e - 53) (-1074) - e) with 0 by lia.
  cbn [shr shr_m loc_of_shr_record round_nearest_even Zdigits2 shr_record_of_loc].
  rewrite Hd, fexp64.
  replace (Z.max (53 + e - 53) (-1074) - e) with 0 by lia.
  cbn [shr shr_m].
  replace (e <=? emax - prec) with true; [reflexivity |].
  symmetry. apply Z.leb_le. change (emax - prec) with 971. lia.
Qed.

(** [k] doublings multiply by [2 ^ k]. *)
Lemma iter_xO_value (p k : positive) :
  Zpos (Pos.iter xO p k) = Zpos p * 2 ^ Zpos k.
Proof.
  induction k as [| k IH] using Pos.peano_ind.
  - cbn. lia.
  - rewrite Pos.iter_succ, Pos2Z.inj_succ, Z.pow_succ_r by lia.
    rewrite Pos2Z.inj_xO, IH. lia.
Qed.

(** [(double)x] for a positive integer below [2 ^ 53]: the mantissa is [x]
    shifted to 53 bits, so the conversion is exact. *)
Lemma normalize_pos (x : positive) :
  Zpos x < 2 ^ 53 ->
  exists mx,
    binary_normalize prec emax (Zpos x) 0 false
    = S754_finite false mx (Zpos (digits2_pos x) - 53) /\
    Zpos mx = Zpos x * 2 ^ (53 - Zpos (digits2_pos x)) /\
    Zpos (digits2_pos mx) = 53.
Proof.
  intros Hx. pose proof (digits2_pos_bounds x) as [Hlo Hhi].
  set (d := Zpos (digits2_pos x)) in *.
  assert (Hd : 1 <= d <= 53).
  { split; [subst d; lia |].
    destruct (Z.leb_spec d 53); [assumption | exfalso].
    assert (2 ^ 53 <= 2 ^ (d - 1)) by (apply Z.pow_le_mono_r; lia). lia. }
  unfold binary_normalize, binary_round, shl_align.
  fold d. rewrite fexp64.
  replace (Z.max (d + 0 - 53) (-1074)) with (d - 53) by lia.
  destruct (d - 53 - 0) as [| k | k] eqn:Hk; [| lia |].
  - exists x. assert (d = 53) by lia.
    split; [| split].
    + rewrite round_aux_canonical by (fold d; lia).
      f_equal. lia.
    + replace (53 - d) with 0 by lia. cbn. lia.
    + fold d. assumption.
  - exists (Pos.iter xO x k).
    assert (Hval : Zpos (Pos.iter xO x k) = Zpos x * 2 ^ (53 - d)).
    { rewrite iter_xO_value. f_equal. f_equal. lia. }
    assert (Hdig : Zpos (digits2_pos (Pos.iter xO x k)) = 53).
    { apply digits2_pos_unique. rewrite Hval.
      replace (2 ^ (53 - 1)) with (2 ^ (d - 1) * 2 ^ (53 - d))
        by (rewrite <- Z.pow_add_r by lia; f_equal; lia).
      replace (2 ^ 53) with (2 ^ d * 2 ^ (53 - d))
        by (rewrite <- Z.pow_add_r by lia; f_equal; lia).
      assert (0 < 2 ^ (53 - d)) by (apply Z.pow_pos_nonneg; lia).
      nia. }
    split; [| split]; [| assumption | assumption].
    apply round_aux_canonical; [assumption | lia].
Qed.

Lemma round_nearest_even_range (m : Z) (l : location) :
  m <= round_nearest_even m l <= m + 1.
Proof.
  destruct l as [| []]; cbn; try destruct (Z.even m); lia.
Qed.

Lemma loc_of_shr_record_of_loc (m : Z) (l : location) :
  loc_of_shr_record (shr_record_of_loc m l) = l /\
  shr_m (shr_record_of_loc m l) = m.
Proof. destruct l as [| []]; split; reflexivity. Qed.

(** Shifting out one bit and rounding to nearest even halves the
    mantissa, up to one half. *)
Lemma shr_1_round (q : positive) (l : location) :
  let mrs := shr_1 (shr_record_of_loc (Zpos q) l) in
  let q' := round_nearest_even (shr_m mrs) (loc_of_shr_record mrs) in
  Zpos q - 1 <= 2 * q' <= Zpos q + 1 /\ (l = loc_Exact -> Z.even (Zpos q) = true -> 2 * q' = Zpos q).
Proof.
  destruct q as [q | q |], l as [| []]; cbn;
    try (destruct q; cbn); split; try lia; try discriminate; intros; try lia; try discriminate.
Qed.

(** Rounding a 54-bit quotient: one bit is shifted out and the rounded
    mantissa still has 53 bits. *)
Lemma round_aux_54 (s : bool) (q : positive) (e : Z) (l : location) :
  Zpos (digits2_pos q) = 54 -> Zpos q <= 2 ^ 54 - 2 -> -1075 <= e <= 970 ->
  exists m,
    binary_round_aux prec emax s (Zpos q) e l = S754_finite s m (e + 1) /\
    Zpos q - 1 <= 2 * Zpos m <= Zpos q + 1 /\
    (l = loc_Exact -> Z.even (Zpos q) = true -> 2 * Zpos m = Zpos q).
Proof.
  intros Hd Hq He.
  pose proof (digits2_pos_bounds q) as Hb. rewrite Hd in Hb.
  pose proof (shr_1_round q l) as Hr. cbv zeta in Hr.
  unfold binary_round_aux, shr_fexp. cbn [Zdigits2].
  rewrite Hd, fexp64.
  replace (Z.max (54 + e - 53) (-1074) - e) with 1 by lia.
  cbn [shr iter_pos].
  set (mrs := shr_1 (shr_record_of_loc (Zpos q) l)) in *.
  set (q' := round_nearest_even (shr_m mrs) (loc_of_shr_record mrs)) in *.
  assert (Hq' : 2 ^ 52 <= q' < 2 ^ 53) by lia.
  destruct q' as [| m | m] eqn:Hq'eq; [lia | | lia].
  assert (Hdm : Zpos (digits2_pos m) = 53) by (apply digits2_pos_unique; exact Hq').
  cbn [Zdigits2 shr_record_of_loc]. rewrite Hdm, fexp64.
  replace (Z.max (53 + (e + 1) - 53) (-1074) - (e + 1)) with 0 by lia.
  cbn [shr shr_m].
  replace (e + 1 <=? emax - prec) with true
    by (symmetry; apply Z.leb_le; change (emax - prec) with 971; lia).
  exists m. split; [reflexivity | exact Hr].
Qed.

(** Rounding a 53-bit quotient: the mantissa is kept or incremented; when
    the increment reaches [2 ^ 53] the exponent goes up by one. *)
Lemma round_aux_53 (s : bool) (q : positive) (e : Z) (l : location) :
  Zpos (digits2_pos q) = 53 -> -1074 <= e <= 970 ->
  (exists m,
      binary_round_aux prec emax s (Zpos q) e l = S754_finite s m e /\
      Zpos m = round_nearest_even (Zpos q) l /\ Zpos m < 2 ^ 53) \/
  (binary_round_aux prec emax s (Zpos q) e l = S754_finite s (2 ^ 52)%positive (e + 1) /\
   round_nearest_even (Zpos q) l = 2 ^ 53).
Proof.
  intros Hd He.
  pose proof (digits2_pos_bounds q) as Hb. rewrite Hd in Hb.
  pose proof (round_nearest_even_range (Zpos q) l) as Hr.
  destruct (loc_of_shr_record_of_loc (Zpos q) l) as [Hloc Hm].
  unfold binary_round_aux, shr_fexp. cbn [Zdigits2].
  rewrite Hd, fexp64.
  replace (Z.max (53 + e - 53) (-1074) - e) with 0 by lia.
  cbn [shr]. rewrite Hloc, Hm.
  set (q' := round_nearest_even (Zpos q) l) in *.
  destruct (Z.ltb_spec q' (2 ^ 53)) as [Hlt | Hge].
  - left. destruct q' as [| m | m] eqn:Hq'eq; [lia | | lia].
    assert (Hdm : Zpos (digits2_pos m) = 53) by (apply digits2_pos_unique; lia).
    cbn [Zdigits2 shr_record_of_loc]. rewrite Hdm, fexp64.
    replace (Z.max (53 + e - 53) (-1074) - e) with 0 by lia.
    cbn [shr shr_m].
    replace (e <=? emax - prec) with true
      by (symmetry; apply Z.leb_le; change (emax - prec) with 971; lia).
    exists m. repeat split; assumption.
  - right. assert (Heq : q' = 2 ^ 53) by lia.
    rewrite Heq. split; [| reflexivity].
    cbn [Zdigits2 shr_record_of_loc Z.pow Z.pow_pos Pos.iter Z.mul Pos.mul digits2_pos Pos.succ].
    rewrite fexp64.
    replace (Z.max (54 + e - 53) (-1074) - e) with 1 by lia.
    cbn [shr iter_pos shr_1 shr_m Z.pow Z.pow_pos Pos.iter Z.mul Pos.mul orb].
    replace (e + 1 <=? emax - prec) with true
      by (symmetry; apply Z.leb_le; change (emax - prec) with 971; lia).
    reflexivity.
Qed.

Lemma new_location_0 (nb_steps : Z) : new_location nb_steps 0 = loc_Exact.
Proof.
  unfold new_location, new_location_even, new_location_odd.
  destruct (Z.even nb_steps); reflexivity.
Qed.

(** The double 1. *)
Definition SF64one : spec_float := S754_finite false (2 ^ 52)%positive (-52).

(** The quotient of two integers [x <= y < 2 ^ 53] in binary64: it is 1
    when they are equal, and otherwise a finite positive number whose
    exponent is at most -53, which puts it below 1. *)
Lemma SFdiv_of_integers (x y : positive) :
  Zpos y < 2 ^ 53 -> Zpos x <= Zpos y ->
  let d := SF64div (binary_normalize prec emax (Zpos x) 0 false)
                   (binary_normalize prec emax (Zpos y) 0 false) in
  (x = y -> d = SF64one) /\
  (Zpos x < Zpos y -> exists m e, d = S754_finite false m e /\ e <= -53).
Proof.
  intros Hy Hxy.
  destruct (normalize_pos x) as (mx & -> & Hmx & Hdmx); [lia |].
  destruct (normalize_pos y) as (my & -> & Hmy & Hdmy); [lia |].
  pose proof (digits2_pos_bounds x) as Hbx.
  pose proof (digits2_pos_bounds y) as Hby.
  pose proof (digits2_pos_bounds mx) as Hbmx. rewrite Hdmx in Hbmx.
  pose proof (digits2_pos_bounds my) as Hbmy. rewrite Hdmy in Hbmy.
  set (dx := Zpos (digits2_pos x)) in *.
  set (dy := Zpos (digits2_pos y)) in *.
  assert (Hdx : 1 <= dx) by (subst dx; lia).
  assert (Hdy : dy <= 53).
  { destruct (Z.leb_spec dy 53); [assumption | exfalso].
    assert (2 ^ 53 <= 2 ^ (dy - 1)) by (apply Z.pow_le_mono_r; lia). lia. }
  assert (Hdxy : dx <= dy).
  { destruct (Z.leb_spec dx dy); [assumption | exfalso].
    assert (2 ^ dy <= 2 ^ (dx - 1)) by (apply Z.pow_le_mono_r; lia). lia. }
  assert (Hsame : dx = dy -> Zpos mx - Zpos my = (Zpos x - Zpos y) * 2 ^ (53 - dx)).
  { intros E. rewrite Hmx, Hmy, <- E. lia. }
  assert (Hpow : 0 < 2 ^ (53 - dx)) by (apply Z.pow_pos_nonneg; lia).
  cbv zeta. unfold SF64div, SFdiv, SFdiv_core_binary. cbn [Zdigits2 xorb].
  rewrite Hdmx, Hdmy, !fexp64.
  replace (Z.min (Z.max (53 + (dx - 53) - (53 + (dy - 53)) - 53) (-1074))
                 (dx - 53 - (dy - 53))) with (dx - dy - 53) by lia.
  replace (dx - 53 - (dy - 53) - (dx - dy - 53)) with 53 by lia.
  rewrite Z.shiftl_mul_pow2 by lia.
  pose proof (Z_div_mod (Zpos mx * 2 ^ 53) (Zpos my) eq_refl) as Hdiv.
  destruct (Z.div_eucl (Zpos mx * 2 ^ 53) (Zpos my)) as [q r].
  destruct Hdiv as [Hqr Hr].
  assert (Hqlo : 2 ^ 52 <= q) by nia.
  assert (Hqhi : q <= 2 ^ 54 - 2) by nia.
  destruct q as [| q | q]; [lia | | lia].
  destruct (Z.ltb_spec (Zpos q) (2 ^ 53)) as [Hq53 | Hq54].
  - (* a 53-bit quotient: the mantissa of x is below that of y *)
    assert (Hlt : Zpos mx < Zpos my) by nia.
    assert (Hdq : Zpos (digits2_pos q) = 53) by (apply digits2_pos_unique; lia).
    split.
    + intros ->. lia.
    + intros Hx.
      destruct (round_aux_53 false q (dx - dy - 53) (new_location (Zpos my) r) Hdq)
        as [(m & -> & _ & _) | [-> Hup]]; [lia | |].
      * exists m, (dx - dy - 53). split; [reflexivity | lia].
      * exists (2 ^ 52)%positive, (dx - dy - 53 + 1). split; [reflexivity |].
        destruct (Z.eq_dec dx dy) as [E |]; [exfalso | lia].
        specialize (Hsame E).
        pose proof (round_nearest_even_range (Zpos q) (new_location (Zpos my) r)).
        assert (Zpos q = 2 ^ 53 - 1) by lia.
        nia.
  - (* a 54-bit quotient: the mantissa of x is at least that of y *)
    assert (Hge : Zpos my <= Zpos mx) by nia.
    assert (Hdq : Zpos (digits2_pos q) = 54) by (apply digits2_pos_unique; lia).
    destruct (round_aux_54 false q (dx - dy - 53) (new_location (Zpos my) r) Hdq)
      as (m & -> & Hm & Hexact); [lia | lia |].
    split.
    + intros E.
      assert (dx = dy) by (subst dx dy; now rewrite E).
      assert (Zpos mx = Zpos my) by (specialize (Hsame H); lia).
      assert (r = 0 /\ Zpos q = 2 ^ 53) as [-> Hq] by nia.
      rewrite new_location_0 in Hexact.
      specialize (Hexact eq_refl). rewrite Hq in Hexact.
      specialize (Hexact eq_refl).
      unfold SF64one. f_equal; lia.
    + intros Hx. exists m, (dx - dy - 53 + 1). split; [reflexivity |].
      destruct (Z.eq_dec dx dy) as [E |]; [exfalso | lia].
      specialize (Hsame E). nia.
Qed.

Lemma Prim2SF_double_of_int (x : Z) :
  0 <= x < 2 ^ 53 ->
  Prim2SF (double_of_int x) = binary_normalize prec emax x 0 false.
Proof.
  intros Hx. unfold double_of_int.
  rewrite of_uint63_spec, Uint63.of_Z_spec.
  rewrite Z.mod_small; [reflexivity |].
  change Uint63.wB with (2 ^ 63). lia.
Qed.

Lemma Prim2SF_one : Prim2SF 1%float = SF64one.
Proof. reflexivity. Qed.

Lemma Prim2SF_zero : Prim2SF 0%float = S754_zero false.
Proof. reflexivity. Qed.

(** The double quotient of two integers [0 <= raw <= m < 2 ^ 53], against
    0 and 1. *)
Lemma double_quotient_range (raw m : Z) :
  0 < m < 2 ^ 53 -> 0 <= raw <= m ->
  let d := PrimFloat.div (double_of_int raw) (double_of_int m) in
  PrimFloat.leb 0%float d = true /\
  PrimFloat.leb d 1%float = true /\
  (PrimFloat.ltb d 1%float = true <-> raw < m) /\
  (d = 1%float <-> raw = m) /\
  (d = 0%float <-> raw = 0).
Proof.
  intros [Hpos Hm] Hraw. cbv zeta.
  set (d := PrimFloat.div (double_of_int raw) (double_of_int m)).
  assert (Hd : Prim2SF d
               = SF64div (binary_normalize prec emax raw 0 false)
                         (binary_normalize prec emax m 0 false)).
  { unfold d. rewrite FloatAxioms.div_spec, !Prim2SF_double_of_int by lia. reflexivity. }
  clearbody d.
  rewrite !FloatAxioms.leb_spec, FloatAxioms.ltb_spec, Prim2SF_one, Prim2SF_zero.
  destruct m as [| y | y]; [lia | | lia].
  destruct raw as [| x | x]; [| | lia].
  - destruct (normalize_pos y Hm) as (my & Hy & _ & _).
    rewrite Hy in Hd. cbn in Hd. rewrite Hd.
    repeat split; try reflexivity; try lia; try discriminate.
    + intros E. apply (f_equal Prim2SF) in E.
      rewrite Hd, Prim2SF_one in E. discriminate.
    + intros _. apply Prim2SF_inj. now rewrite Hd, Prim2SF_zero.
  - destruct (SFdiv_of_integers x y Hm (proj2 Hraw)) as [Heq Hlt].
    rewrite <- Hd in Heq, Hlt.
    destruct (Z.eq_dec (Zpos x) (Zpos y)) as [E | NE].
    + injection E as E. rewrite (Heq E).
      repeat split; try reflexivity; try lia; try discriminate.
      * intros _. apply Prim2SF_inj. now rewrite (Heq E), Prim2SF_one.
      * intros E'. apply (f_equal Prim2SF) in E'.
        rewrite (Heq E), Prim2SF_zero in E'. discriminate.
    + destruct Hlt as (mz & ez & Hz & Hez); [lia |].
      rewrite Hz. unfold SF64one, SFleb, SFltb, SFcompare.
      assert (Hcmp : (ez ?= -52) = Lt) by (apply Z.compare_lt_iff; lia).
      rewrite Hcmp.
      repeat split; try reflexivity; try lia; try discriminate.
      * intros E'. apply (f_equal Prim2SF) in E'.
        rewrite Hz, Prim2SF_one in E'. unfold SF64one in E'.
        injection E' as _ E'. lia.
      * intros E'. apply (f_equal Prim2SF) in E'.
        rewrite Hz, Prim2SF_zero in E'. discriminate.
Qed.

End Binary64Division.

Module Binary64Properties.
Import Binary64Division RngFacts.

(** X14: in binary64, for every library whose [RAND_MAX] is below 2^53
    (every [int] of at most 53 value bits) and every raw value from 0 to
    [RAND_MAX], the double [(double)raw / (double)RAND_MAX] is at least 0
    and at most 1; it is below 1 exactly when the raw value is below
    [RAND_MAX], it is the double 1 exactly when the raw value is
    [RAND_MAX], and it is 0 exactly when the raw value is 0.  So is the
    double of every value [genrand_real1] draws. *)
Theorem double_of_raw_closed_unit_interval (L : libc) :
  RAND_MAX L < 2 ^ 53 ->
  (forall raw,
      0 <= raw <= RAND_MAX L ->
      PrimFloat.leb 0%float (double_of_raw L raw) = true /\
      PrimFloat.leb (double_of_raw L raw) 1%float = true /\
      (PrimFloat.ltb (double_of_raw L raw) 1%float = true <-> raw < RAND_MAX L) /\
      (double_of_raw L raw = 1%float <-> raw = RAND_MAX L) /\
      (double_of_raw L raw = 0%float <-> raw = 0)) /\
  (forall now st,
      PrimFloat.leb 0%float (double_of_raw L (next_raw L now st)) = true /\
      PrimFloat.leb (double_of_raw L (next_raw L now st)) 1%float = true).
Proof.
  intros Hmax.
  pose proof (RAND_MAX_pos L) as Hpos.
  assert (Hall : forall raw,
             0 <= raw <= RAND_MAX L ->
             PrimFloat.leb 0%float (double_of_raw L raw) = true /\
             PrimFloat.leb (double_of_raw L raw) 1%float = true /\
             (PrimFloat.ltb (double_of_raw L raw) 1%float = true <-> raw < RAND_MAX L) /\
             (double_of_raw L raw = 1%float <-> raw = RAND_MAX L) /\
             (double_of_raw L raw = 0%float <-> raw = 0)).
  { intros raw Hraw.
    exact (double_quotient_range raw (RAND_MAX L) (conj Hpos Hmax) Hraw). }
  split; [exact Hall |].
  intros now st.
  destruct (Hall (next_raw L now st) (next_raw_range L now st)) as (H0 & H1 & _).
  split; assumption.
Qed.

(** The sample library, and the first raw value of seed 42. *)
Lemma double_of_raw_closed_unit_interval_witness :
  PrimFloat.leb 0%float (double_of_raw sample 19081) = true /\
  PrimFloat.leb (double_of_raw sample 19081) 1%float = true /\
  (PrimFloat.ltb (double_of_raw sample 19081) 1%float = true
   <-> 19081 < RAND_MAX sample) /\
  (double_of_raw sample 19081 = 1%float <-> 19081 = RAND_MAX sample) /\
  (double_of_raw sample 19081 = 0%float <-> 19081 = 0).
Proof.
  apply (proj1 (double_of_raw_closed_unit_interval sample eq_refl) 19081).
  cbn; lia.
Defined.

End Binary64Properties.

(** ** The double [genrand_real1] returns *)

Module RngDouble.

Section WithLibC.

Variable L : libc.

(** [double genrand_real1()] with the value it returns, the binary64
    quotient [(double)rand() / (double)RAND_MAX].  The effect on the state
    and the library calls are those of [genrand_real1], which carries the
    exact quotient of the same two integers. *)
Definition genrand_real1_double (now : Z) (st : rng_state L)
  : float * rng_state L * list libc_call :=
  let (st1, evs) := seed_from_clock L now st in
  let (r, g') := rand L (gen st1) in
  (double_of_raw L r,
   {| gen := g'; initialized := initialized st1 |},
   evs ++ [Call_rand r]).

Record double_run_result : Type := {
  doubles : list float;
  double_calls : list libc_call;
  double_final : rng_state L
}.

(** The calls of [cs] in order from state [st], with the doubles drawn;
    [None] when one is undefined. *)
Fixpoint run_double (cs : list call) (st : rng_state L)
  : option double_run_result :=
  match cs with
  | [] => Some {| doubles := []; double_calls := []; double_final := st |}
  | Draw now :: cs' =>
      let '(d, st', evs) := genrand_real1_double now st in
      match run_double cs' st' with
      | Some r => Some {| doubles := d :: doubles r;
                          double_calls := evs ++ double_calls r;
                          double_final := double_final r |}
      | None => None
      end
  | Reseed init_key key_length :: cs' =>
      match init_by_array L init_key key_length st with
      | Some (st', evs) =>
          match run_double cs' st' with
          | Some r => Some {| doubles := doubles r;
                              double_calls := evs ++ double_calls r;
                              double_final := double_final r |}
          | None => None
          end
      | None => None
      end
  end.

Lemma genrand_real1_double_value (now : Z) (st : rng_state L) :
  fst (fst (genrand_real1_double now st)) = double_of_raw L (next_raw L now st).
Proof.
  unfold genrand_real1_double, next_raw.
  destruct (seed_from_clock L now st) as [st1 evs]; cbn [fst].
  destruct (rand L (gen st1)) as [r g']; reflexivity.
Qed.

(** The two readings of [genrand_real1] leave the same state and make the
    same library calls. *)
Lemma genrand_real1_double_effect (now : Z) (st : rng_state L) :
  snd (fst (genrand_real1_double now st)) = snd (fst (genrand_real1 L now st)) /\
  snd (genrand_real1_double now st) = snd (genrand_real1 L now st).
Proof.
  unfold genrand_real1_double, genrand_real1.
  destruct (seed_from_clock L now st) as [st1 evs].
  destruct (rand L (gen st1)) as [r g']; split; reflexivity.
Qed.

Lemma run_double_effect (cs : list call) (st : rng_state L) :
  option_map (fun r => (double_calls r, double_final r)) (run_double cs st)
  = option_map (fun r => (calls r, final r)) (run L cs st).
Proof.
  revert st; induction cs as [| c cs IH]; intros st; [reflexivity |].
  destruct c as [now | init_key key_length]; cbn [run run_double].
  - pose proof (genrand_real1_double_effect now st) as [Hst Hevs].
    destruct (genrand_real1_double now st) as [[d st'] evs].
    destruct (genrand_real1 L now st) as [[v st2] evs2].
    cbn [fst snd] in Hst, Hevs; subst st2 evs2.
    specialize (IH st').
    destruct (run_double cs st') as [rd |], (run L cs st') as [r |];
      cbn [option_map] in *; try discriminate; [| reflexivity].
    injection IH as -> ->. reflexivity.
  - destruct (init_by_array L init_key key_length st) as [[st' evs] |];
      [| reflexivity].
    specialize (IH st').
    destruct (run_double cs st') as [rd |], (run L cs st') as [r |];
      cbn [option_map] in *; try discriminate; [| reflexivity].
    injection IH as -> ->. reflexivity.
Qed.

End WithLibC.

Arguments doubles {L} _.
Arguments double_calls {L} _.
Arguments double_final {L} _.

End RngDouble.
Export RngDouble.

Module RangeFacts.

(** A [RAND_MAX] of more than 53 bits is not converted exactly: the raw
    value [2 ^ 53] is below [2 ^ 53 + 1], yet the double quotient is 1. *)
Lemma beyond_53_bits :
  2 ^ 53 < 2 ^ 53 + 1 /\
  PrimFloat.div (double_of_int (2 ^ 53)) (double_of_int (2 ^ 53 + 1)) = 1%float.
Proof. split; [lia | vm_compute; reflexivity]. Qed.

End RangeFacts.

Module RangeClaims.
Import Binary64Division RngFacts.

(** C3, as stated, fails: the raw value [RAND_MAX] gives the double 1,
    which is not below 1.  On the sample library the key 24884 makes the
    next raw value [RAND_MAX], so the second draw of this process is
    exactly 1. *)
Lemma genrand_real1_double_returns_one :
  option_map doubles
    (run_double sample [Draw 1700000000; Reseed [24884] 1; Draw 1700000001]
                (process_start sample))
  = Some [double_of_raw sample 7723; 1%float] /\
  PrimFloat.ltb 1%float 1%float = false /\
  ~ (forall raw, 0 <= raw <= RAND_MAX sample ->
                 PrimFloat.leb 0%float (double_of_raw sample raw) = true /\
                 PrimFloat.ltb (double_of_raw sample raw) 1%float = true).
Proof.
  split; [vm_compute; reflexivity |].
  split; [vm_compute; reflexivity |].
  intros H. destruct (H 32767) as [_ Hlt]; [cbn; lia |].
  vm_compute in Hlt. discriminate.
Qed.

(** C3, amended: every call of [genrand_real1] returns the double
    [(double)raw / (double)RAND_MAX] of the raw value [rand] gives; when
    [RAND_MAX] is below 2^53, for every raw value from 0 to [RAND_MAX] this
    double lies in the closed interval [[0, 1]], it is below 1 exactly when
    the raw value is below [RAND_MAX], and it is 1 exactly when the raw
    value is [RAND_MAX]. *)
Theorem genrand_real1_double_closed_unit_interval (L : libc) :
  RAND_MAX L < 2 ^ 53 ->
  (forall now st,
      let d := fst (fst (genrand_real1_double L now st)) in
      d = double_of_raw L (next_raw L now st) /\
      0 <= next_raw L now st <= RAND_MAX L /\
      PrimFloat.leb 0%float d = true /\
      PrimFloat.leb d 1%float = true /\
      (PrimFloat.ltb d 1%float = true <-> next_raw L now st < RAND_MAX L)) /\
  (forall raw,
      0 <= raw <= RAND_MAX L ->
      PrimFloat.leb 0%float (double_of_raw L raw) = true /\
      PrimFloat.leb (double_of_raw L raw) 1%float = true /\
      (PrimFloat.ltb (double_of_raw L raw) 1%float = true <-> raw < RAND_MAX L) /\
      (double_of_raw L raw = 1%float <-> raw = RAND_MAX L)).
Proof.
  intros Hmax. pose proof (RAND_MAX_pos L) as Hpos. split.
  - intros now st. cbv zeta. rewrite genrand_real1_double_value.
    pose proof (next_raw_range L now st) as Hraw.
    destruct (double_quotient_range (next_raw L now st) (RAND_MAX L)
                                    (conj Hpos Hmax) Hraw)
      as (H0 & H1 & Hlt & _).
    repeat split; try assumption; try lia; apply Hlt.
  - intros raw Hraw.
    destruct (double_quotient_range raw (RAND_MAX L) (conj Hpos Hmax) Hraw)
      as (H0 & H1 & Hlt & Heq & _).
    repeat split; try assumption; try apply Hlt; apply Heq.
Qed.

(** The sample library, and the first raw value of seed 42. *)
Lemma genrand_real1_double_closed_unit_interval_witness :
  PrimFloat.leb 0%float (double_of_raw sample 19081) = true /\
  PrimFloat.leb (double_of_raw sample 19081) 1%float = true /\
  (PrimFloat.ltb (double_of_raw sample 19081) 1%float = true
   <-> 19081 < RAND_MAX sample) /\
  (double_of_raw sample 19081 = 1%float <-> 19081 = RAND_MAX sample).
Proof.
  apply (proj2 (genrand_real1_double_closed_unit_interval sample eq_refl) 19081).
  cbn; lia.
Defined.

(** X8: when [RAND_MAX] is below 2^53, every double drawn in a run, from
    any state and after any reseeds, is the binary64 quotient of a raw
    value of [rand] by [RAND_MAX] and lies between 0 and 1, both
    included. *)
Theorem run_doubles_in_unit_interval
        (L : libc) (cs : list call) (st : rng_state L)
        (r : double_run_result L) :
  RAND_MAX L < 2 ^ 53 ->
  run_double L cs st = Some r ->
  Forall (fun d => exists raw, 0 <= raw <= RAND_MAX L /\
                               d = double_of_raw L raw /\
                               PrimFloat.leb 0%float d = true /\
                               PrimFloat.leb d 1%float = true)
         (doubles r).
Proof.
  intros Hmax. pose proof (RAND_MAX_pos L) as Hpos.
  revert st r; induction cs as [| c cs IH]; intros st r Hrun.
  - cbn in Hrun. injection Hrun as <-. constructor.
  - destruct c as [now | init_key key_length]; cbn [run_double] in Hrun.
    + pose proof (genrand_real1_double_value L now st) as Hv.
      destruct (genrand_real1_double L now st) as [[d st'] evs].
      cbn [fst] in Hv; subst d.
      destruct (run_double L cs st') as [r' |] eqn:Hr'; [| discriminate].
      injection Hrun as <-. cbn [doubles].
      constructor; [| exact (IH _ _ Hr')].
      pose proof (next_raw_range L now st) as Hraw.
      destruct (double_quotient_range (next_raw L now st) (RAND_MAX L)
                                      (conj Hpos Hmax) Hraw)
        as (H0 & H1 & _).
      exists (next_raw L now st). repeat split; try assumption; lia.
    + destruct (init_by_array L init_key key_length st) as [[st' evs] |];
        [| discriminate].
      destruct (run_double L cs st') as [r' |] eqn:Hr'; [| discriminate].
      injection Hrun as <-. cbn [doubles]. exact (IH _ _ Hr').
Qed.

Lemma run_doubles_in_unit_interval_witness :
  exists r,
    run_double sample [Draw 1700000000; Reseed [24884] 1; Draw 1700000001]
               (process_start sample) = Some r /\
    Forall (fun d => exists raw, 0 <= raw <= RAND_MAX sample /\
                                 d = double_of_raw sample raw /\
                                 PrimFloat.leb 0%float d = true /\
                                 PrimFloat.leb d 1%float = true)
           (doubles r).
Proof.
  eexists. split; [reflexivity |].
  exact (run_doubles_in_unit_interval
           sample [Draw 1700000000; Reseed [24884] 1; Draw 1700000001]
           (process_start sample) _ eq_refl eq_refl).
Defined.

End RangeClaims.
